(** * Resume filter: a shallow embedding of [main.py] and [utils/parser.py]

    The development follows the two source files.

    - Python [str] values are [string]s whose characters are code points
      below 256 (Latin-1); [str.lower], [str.strip] and the [in] operator
      are written out for that range.
    - [os.path.splitext], [os.path.join] and [os.path.dirname] follow
      CPython's [posixpath] line by line.
    - The file system is a finite map from path strings, exactly as the
      program hands them to the operating system (no normalisation of
      [.], [..] or repeated separators), to nodes; every operating-system
      call is recorded in a log, so that "no I/O happened" is a statement
      about the log.
    - The endpoints are computations in a small state-and-exception monad
      over that world: a raised exception keeps the effects that came
      before it, as in Python.
    - The two third-party parsers (PyPDF2 and python-docx) are parameters
      of the development. *)

From Stdlib Require Import ZArith Ascii String.
From Stdlib Require Import Sorting.Permutation Sorting.Sorted.
From stdpp Require Import base option list gmap strings pretty.

Local Open Scope Z_scope.

(** ** Python [str] primitives *)


(** The newline character and the one-character separators. *)
Definition NL : string := String (ascii_of_nat 10) "".
Definition sep : ascii := ascii_of_nat 47.      (* "/" *)
Definition extsep : ascii := ascii_of_nat 46.   (* "." *)

(** [str.lower] on one code point below 256: the ASCII capitals and the
    Latin-1 capitals U+00C0..U+00DE (without the multiplication sign
    U+00D7) move up by 32; everything else is unchanged. *)
Definition chr_lower (c : ascii) : ascii :=
  let n := nat_of_ascii c in
  if ((65 <=? n) && (n <=? 90))%nat
     || ((192 <=? n) && (n <=? 222) && negb (n =? 215))%nat
  then ascii_of_nat (n + 32)
  else c.

Fixpoint str_lower (s : string) : string :=
  match s with
  | EmptyString => EmptyString
  | String c s' => String (chr_lower c) (str_lower s')
  end.

(** [str.isspace] on one code point below 256. *)
Definition chr_isspace (c : ascii) : bool :=
  let n := nat_of_ascii c in
  ((9 <=? n) && (n <=? 13))%nat || ((28 <=? n) && (n <=? 32))%nat
  || (n =? 133)%nat || (n =? 160)%nat.

Fixpoint str_lstrip (s : string) : string :=
  match s with
  | EmptyString => EmptyString
  | String c s' => if chr_isspace c then str_lstrip s' else s
  end.

Fixpoint str_rstrip (s : string) : string :=
  match s with
  | EmptyString => EmptyString
  | String c s' =>
      match str_rstrip s' with
      | EmptyString => if chr_isspace c then EmptyString else String c ""
      | r => String c r
      end
  end.

(** [s.strip()] *)
Definition str_strip (s : string) : string := str_rstrip (str_lstrip s).

(** [s.rstrip(c)] for a one-character argument. *)
Fixpoint str_rstrip_chr (c : ascii) (s : string) : string :=
  match s with
  | EmptyString => EmptyString
  | String a s' =>
      match str_rstrip_chr c s' with
      | EmptyString => if Ascii.eqb a c then EmptyString else String a ""
      | r => String a r
      end
  end.

(** [s.startswith(p)] *)
Fixpoint str_startswith (s p : string) {struct p} : bool :=
  match p, s with
  | EmptyString, _ => true
  | String _ _, EmptyString => false
  | String a p', String b s' => Ascii.eqb a b && str_startswith s' p'
  end.

(** [needle in hay] *)
Fixpoint str_in (needle hay : string) : bool :=
  str_startswith hay needle
  || match hay with
     | EmptyString => false
     | String _ hay' => str_in needle hay'
     end.

(** [s.endswith(c)] for a one-character argument. *)
Fixpoint str_endswith_chr (s : string) (c : ascii) : bool :=
  match s with
  | EmptyString => false
  | String a EmptyString => Ascii.eqb a c
  | String _ s' => str_endswith_chr s' c
  end.

(** [s.rfind(c)] for a one-character argument: the highest index of [c]
    in [s], or [-1]. *)
Fixpoint str_rfind_from (c : ascii) (s : string) (i : Z) (best : Z) : Z :=
  match s with
  | EmptyString => best
  | String a s' => str_rfind_from c s' (i + 1) (if Ascii.eqb a c then i else best)
  end.

Definition str_rfind (c : ascii) (s : string) : Z := str_rfind_from c s 0 (-1).

Definition str_len (s : string) : Z := Z.of_nat (String.length s).

(** The slices [s[:i]] and [s[i:]] for [0 <= i]. *)
Definition str_take (i : Z) (s : string) : string :=
  String.substring 0 (Z.to_nat i) s.
Definition str_drop (i : Z) (s : string) : string :=
  String.substring (Z.to_nat i) (String.length s - Z.to_nat i) s.

(** [s[i:i+1]]: one character, or the empty string past the end. *)
Definition str_at (i : Z) (s : string) : string :=
  String.substring (Z.to_nat i) 1 s.

(** [c * n] *)
Fixpoint str_repeat (c : ascii) (n : nat) : string :=
  match n with
  | O => EmptyString
  | S k => String c (str_repeat c k)
  end.


(** ** [posixpath] *)


(** The [while filenameIndex < dotIndex] loop of [genericpath._splitext]:
    [true] when a character other than the dot is met before [dotIndex],
    [steps] being the number of iterations left. *)
Fixpoint splitext_scan (p : string) (filenameIndex : Z) (steps : nat) : bool :=
  match steps with
  | O => false
  | S k =>
      if negb (String.eqb (str_at filenameIndex p) (String extsep ""))
      then true
      else splitext_scan p (filenameIndex + 1) k
  end.

(** [os.path.splitext(p)] *)
Definition os_path_splitext (p : string) : string * string :=
  let sepIndex := str_rfind sep p in
  let dotIndex := str_rfind extsep p in
  if (sepIndex <? dotIndex)
     && splitext_scan p (sepIndex + 1) (Z.to_nat (dotIndex - (sepIndex + 1)))
  then (str_take dotIndex p, str_drop dotIndex p)
  else (p, EmptyString).

(** [os.path.join(a, b)] *)
Definition os_path_join (a b : string) : string :=
  if str_startswith b (String sep "") then b
  else if String.eqb a "" || str_endswith_chr a sep then a +:+ b
  else a +:+ String sep "" +:+ b.

(** [os.path.dirname(p)] *)
Definition os_path_dirname (p : string) : string :=
  let i := str_rfind sep p + 1 in
  let head := str_take i p in
  if negb (String.eqb head "")
     && negb (String.eqb head (str_repeat sep (String.length head)))
  then str_rstrip_chr sep head
  else head.


(** ** The world: a file system and a log of operating-system calls *)

(** A path names a regular file with its bytes, or a directory. *)
Inductive node :=
| File (data : string)
| Dir.

Inductive event :=
| EvExists (path : string)
| EvListdir (path : string)
| EvOpenRead (path : string)
| EvOpenWrite (path : string)
| EvRemove (path : string)
| EvPrint (line : string).

Record world := World {
  fs : gmap string node;
  io : list event
}.

(** ** Exceptions and the monad of the endpoints *)

Inductive exn :=
| HTTPException (status_code : Z) (detail : string)
| OSError (errno : Z) (strerror : string) (filename : string)
| LibraryError (msg : string).

(** [str(e)]; the file name of an [OSError] is shown between plain quotes
    (Python shows its [repr]). *)
Definition exn_str (e : exn) : string :=
  match e with
  | HTTPException c d => pretty c +:+ ": " +:+ d
  | OSError n s f => "[Errno " +:+ pretty n +:+ "] " +:+ s +:+ ": '" +:+ f +:+ "'"
  | LibraryError m => m
  end.

Inductive result (A : Type) :=
| Ok (a : A)
| Raise (e : exn).
Arguments Ok {A} a.
Arguments Raise {A} e.

Definition M (A : Type) : Type := world -> result A * world.

Definition ret {A} (a : A) : M A := fun w => (Ok a, w).

Definition raise {A} (e : exn) : M A := fun w => (Raise e, w).

Definition bind {A B} (m : M A) (k : A -> M B) : M B :=
  fun w =>
    match m w with
    | (Ok a, w') => k a w'
    | (Raise e, w') => (Raise e, w')
    end.

(** [try: m  except Exception as e: h e] *)
Definition try_except {A} (m : M A) (h : exn -> M A) : M A :=
  fun w =>
    match m w with
    | (Ok a, w') => (Ok a, w')
    | (Raise e, w') => h e w'
    end.

Notation "'let!' x ':=' m 'in' k" := (bind m (fun x => k))
  (at level 10, x pattern, m at level 100, k at level 200).
Notation "m ';;' k" := (bind m (fun _ => k))
  (at level 100, k at level 200, right associativity).

Definition get_fs : M (gmap string node) := fun w => (Ok (fs w), w).
Definition put_fs (f : gmap string node) : M unit := fun w => (Ok tt, World f (io w)).
Definition log (e : event) : M unit := fun w => (Ok tt, World (fs w) (io w ++ [e])).

(** An exception-or-value of a library call, as a computation. *)
Definition lift {A} (r : exn + A) : M A :=
  match r with
  | inl e => raise e
  | inr a => ret a
  end.

(** ** Operating-system calls *)

Definition ENOENT (path : string) : exn := OSError 2 "No such file or directory" path.
Definition ENOTDIR (path : string) : exn := OSError 20 "Not a directory" path.
Definition EISDIR (path : string) : exn := OSError 21 "Is a directory" path.

(** [print(line)] *)
Definition print (line : string) : M unit := log (EvPrint line).

(** [os.path.exists(path)] *)
Definition os_path_exists (path : string) : M bool :=
  log (EvExists path) ;;
  let! f := get_fs in
  ret (bool_decide (is_Some (f !! path))).

(** The name [n] when [key] is the path of entry [n] of directory [d]:
    [key = d/n] with [n] a single non-empty component. *)
Definition entry_name (d key : string) : option string :=
  let prefix := os_path_join d "" in
  if str_startswith key prefix then
    let n := str_drop (str_len prefix) key in
    if String.eqb n "" || str_in (String sep "") n then None else Some n
  else None.

(** The entries of directory [d], in the order the file system keeps
    them (the order of the map's listing). *)
Definition dir_entries (d : string) (f : gmap string node) : list string :=
  omap (fun kv => entry_name d kv.1) (map_to_list f).

(** [os.listdir(path)] *)
Definition os_listdir (path : string) : M (list string) :=
  log (EvListdir path) ;;
  let! f := get_fs in
  match f !! path with
  | Some Dir => ret (dir_entries path f)
  | Some (File _) => raise (ENOTDIR path)
  | None => raise (ENOENT path)
  end.

(** [open(path, "rb")] and reading the file to its end. *)
Definition open_rb (path : string) : M string :=
  log (EvOpenRead path) ;;
  let! f := get_fs in
  match f !! path with
  | Some (File data) => ret data
  | Some Dir => raise (EISDIR path)
  | None => raise (ENOENT path)
  end.

(** The directory that must exist for [path] to be created: the current
    directory (the empty [dirname]) always does. *)
Definition parent_check (f : gmap string node) (path : string) : option exn :=
  let d := os_path_dirname path in
  if String.eqb d "" then None
  else match f !! d with
       | Some Dir => None
       | Some (File _) => Some (ENOTDIR path)
       | None => Some (ENOENT path)
       end.

(** [with open(path, "wb") as buffer: shutil.copyfileobj(src, buffer)]:
    the file is created or truncated, then holds the bytes of [src]. *)
Definition open_wb_copy (path : string) (src : string) : M unit :=
  log (EvOpenWrite path) ;;
  let! f := get_fs in
  match f !! path with
  | Some Dir => raise (EISDIR path)
  | _ =>
      match parent_check f path with
      | Some e => raise e
      | None => put_fs (<[path := File src]> f)
      end
  end.

(** [os.remove(path)] *)
Definition os_remove (path : string) : M unit :=
  log (EvRemove path) ;;
  let! f := get_fs in
  match f !! path with
  | Some (File _) => put_fs (delete path f)
  | Some Dir => raise (EISDIR path)
  | None => raise (ENOENT path)
  end.

(** ** [utils/parser.py]: class [ResumeParser] *)

(** The dictionary [search_keywords] returns. *)
Record MatchResult := {
  matched_keywords : list string;
  score : Z
}.

(** Truth value of an [Optional[str]]: [None] and the empty string are
    false. *)
Definition truthy (text : option string) : bool :=
  match text with
  | None => false
  | Some EmptyString => false
  | Some (String _ _) => true
  end.

(** [ResumeParser.search_keywords(text, keywords)] *)
Definition search_keywords (text : option string) (keywords : list string) : MatchResult :=
  match text with
  | Some (String _ _ as text) =>
      let text_lower := str_lower text in
      let matched :=
        foldl (fun matched keyword =>
                 if str_in (str_lower keyword) text_lower
                 then matched ++ [keyword]
                 else matched)
              [] keywords in
      {| matched_keywords := matched; score := Z.of_nat (length matched) |}
  | _ => {| matched_keywords := []; score := 0 |}
  end.

Section Program.

(** [PyPDF2.PdfReader(file).pages] on the bytes of a file: the exception
    the reader raises, or the pages, each with what [page.extract_text()]
    returns or raises. *)
Variable PdfReader : string -> exn + list (exn + string).

(** [docx.Document(path).paragraphs] on the bytes of the file at [path]:
    the exception raised, or the text of each paragraph. *)
Variable Document : string -> exn + list string.

(** The loop [for page in pdf_reader.pages: text += page.extract_text() + NL]. *)
Fixpoint pdf_pages_loop (pages : list (exn + string)) (text : string) : M string :=
  match pages with
  | [] => ret text
  | page :: pages' =>
      let! t := lift page in
      pdf_pages_loop pages' (text +:+ (t +:+ NL))
  end.

(** [ResumeParser.extract_text_from_pdf(file_path)] *)
Definition extract_text_from_pdf (file_path : string) : M (option string) :=
  try_except
    (let! file := open_rb file_path in
     let! pages := lift (PdfReader file) in
     let! text := pdf_pages_loop pages "" in
     ret (Some (str_strip text)))
    (fun e =>
       print ("Error extracting text from PDF " +:+ file_path +:+ ": " +:+ exn_str e) ;;
       ret None).

(** [ResumeParser.extract_text_from_docx(file_path)] *)
Definition extract_text_from_docx (file_path : string) : M (option string) :=
  try_except
    (let! file := open_rb file_path in
     let! paragraphs := lift (Document file) in
     let text := String.concat NL paragraphs in
     ret (Some (str_strip text)))
    (fun e =>
       print ("Error extracting text from DOCX " +:+ file_path +:+ ": " +:+ exn_str e) ;;
       ret None).

(** [ResumeParser.extract_text(file_path)] *)
Definition extract_text (file_path : string) : M (option string) :=
  let extension := (os_path_splitext file_path).2 in
  let extension := str_lower extension in
  if String.eqb extension ".pdf" then extract_text_from_pdf file_path
  else if String.eqb extension ".docx" then extract_text_from_docx file_path
  else
    print ("Unsupported file format: " +:+ extension) ;;
    ret None.

(** ** [main.py] *)

Definition UPLOAD_DIR : string := "uploads".
Definition ALLOWED_EXTENSIONS : gset string := {[ ".pdf"; ".docx" ]}.

(** An uploaded part of the request: its name and the bytes of its stream. *)
Record UploadFile := {
  filename : string;
  file : string
}.

Record ResumeMatch := {
  rm_filename : string;
  rm_matched_keywords : list string;
  rm_score : Z
}.

Record UploadResponse := {
  upload_message : string;
  upload_files : list string;
  upload_count : Z
}.

(** The dictionary of [filter_resumes]; the key [keywords_searched] is
    absent from the answer given for an empty store. *)
Record FilterResponse := {
  filter_message : string;
  matched_resumes : list ResumeMatch;
  total_resumes : Z;
  keywords_searched : option (list string)
}.

(** [is_allowed_file(filename)] *)
Definition is_allowed_file (filename : string) : bool :=
  let ext := (os_path_splitext filename).2 in
  bool_decide (str_lower ext ∈ ALLOWED_EXTENSIONS).

(** [get_uploaded_resumes()] *)
Definition get_uploaded_resumes : M (list string) :=
  let! present := os_path_exists UPLOAD_DIR in
  if negb present then ret []
  else
    let! names := os_listdir UPLOAD_DIR in
    ret (foldl (fun files filename =>
                  if is_allowed_file filename then files ++ [filename] else files)
               [] names).

Definition invalid_extension (name : string) : exn :=
  HTTPException 400
    ("File " +:+ name +:+ " has invalid extension. Only PDF and DOCX allowed.").

(** The loop [for file in files] of [upload_resumes]. *)
Fixpoint upload_loop (files : list UploadFile) (uploaded_files : list string)
  : M (list string) :=
  match files with
  | [] => ret uploaded_files
  | f :: files' =>
      if negb (is_allowed_file (filename f)) then raise (invalid_extension (filename f))
      else
        let file_path := os_path_join UPLOAD_DIR (filename f) in
        let! uploaded_files :=
          try_except
            (open_wb_copy file_path (file f) ;;
             ret (uploaded_files ++ [filename f]))
            (fun e =>
               raise (HTTPException 500
                        ("Failed to save file " +:+ filename f +:+ ": " +:+ exn_str e))) in
        upload_loop files' uploaded_files
  end.

(** [upload_resumes(files)] *)
Definition upload_resumes (files : list UploadFile) : M UploadResponse :=
  match files with
  | [] => raise (HTTPException 400 "No files provided")
  | _ =>
      let! uploaded_files := upload_loop files [] in
      ret {| upload_message := "Resumes uploaded successfully";
             upload_files := uploaded_files;
             upload_count := Z.of_nat (length uploaded_files) |}
  end.

(** [l.sort(key=key, reverse=True)].  Python documents its sort as stable,
    with [reverse=True] too: the result is descending by key and elements
    of equal key keep their order.  The model is the insertion sort with
    that behaviour: an element goes in front of the first one whose key
    is not greater than its own. *)
Fixpoint insert_desc {A} (key : A -> Z) (x : A) (l : list A) : list A :=
  match l with
  | [] => [x]
  | y :: l' => if key x <? key y then y :: insert_desc key x l' else x :: l
  end.

Definition sort_reverse {A} (key : A -> Z) (l : list A) : list A :=
  foldr (insert_desc key) [] l.

(** The loop [for filename in resumes] of [filter_resumes]. *)
Fixpoint filter_loop (keywords : list string) (resumes : list string)
    (matched : list ResumeMatch) : M (list ResumeMatch) :=
  match resumes with
  | [] => ret matched
  | filename :: resumes' =>
      let file_path := os_path_join UPLOAD_DIR filename in
      let! text := extract_text file_path in
      if truthy text then
        let result := search_keywords text keywords in
        if 0 <? score result then
          filter_loop keywords resumes'
            (matched ++ [{| rm_filename := filename;
                            rm_matched_keywords := matched_keywords result;
                            rm_score := score result |}])
        else filter_loop keywords resumes' matched
      else filter_loop keywords resumes' matched
  end.

(** [filter_resumes(filter_request)], on the request's [keywords]. *)
Definition filter_resumes (keywords : list string) : M FilterResponse :=
  match keywords with
  | [] => raise (HTTPException 400 "No keywords provided")
  | _ =>
      let! resumes := get_uploaded_resumes in
      match resumes with
      | [] => ret {| filter_message := "No resumes found";
                     matched_resumes := [];
                     total_resumes := 0;
                     keywords_searched := None |}
      | _ =>
          let! matched := filter_loop keywords resumes [] in
          let matched := sort_reverse rm_score matched in
          ret {| filter_message :=
                   "Found " +:+ pretty (Z.of_nat (length matched)) +:+ " matching resumes";
                 matched_resumes := matched;
                 total_resumes := Z.of_nat (length resumes);
                 keywords_searched := Some keywords |}
      end
  end.

(** [delete_resume(filename)]; the answer is the dictionary's one
    message. *)
Definition delete_resume (filename : string) : M string :=
  let file_path := os_path_join UPLOAD_DIR filename in
  let! present := os_path_exists file_path in
  if negb present then raise (HTTPException 404 "Resume not found")
  else
    try_except
      (os_remove file_path ;;
       ret ("Resume " +:+ filename +:+ " deleted successfully"))
      (fun e =>
         raise (HTTPException 500 ("Failed to delete resume: " +:+ exn_str e))).

(** The text [extract_text] finds in the file at [file_path] of the file
    system [g]. *)
Definition document_text (g : gmap string node) (file_path : string) : option string :=
  match (extract_text file_path (World g [])).1 with
  | Ok text => text
  | Raise _ => None
  end.

(** The entry of the answer of [filter_resumes] for the stored document
    [name]: its keywords found in its text, and their number. *)
Definition scored (g : gmap string node) (K : list string) (name : string) : ResumeMatch :=
  let result := search_keywords (document_text g (os_path_join UPLOAD_DIR name)) K in
  {| rm_filename := name;
     rm_matched_keywords := matched_keywords result;
     rm_score := score result |}.

End Program.

(** ** Notions the statements are written with *)

(** The stored documents, in the order of the directory listing. *)
Definition documents (g : gmap string node) : list string :=
  filter (fun n => is_allowed_file n = true) (dir_entries UPLOAD_DIR g).

(** A single path component: not empty, no separator in it. *)
Definition plain_name (n : string) : Prop :=
  n <> "" /\ str_in (String sep "") n = false.

(** Descending by key. *)
Definition descending {A} (key : A -> Z) (l : list A) : Prop :=
  StronglySorted (fun a b => key b <= key a) l.

(** The text the page loop builds from pages that all decode. *)
Fixpoint pages_text (texts : list string) (text : string) : string :=
  match texts with
  | [] => text
  | t :: texts' => pages_text texts' (text +:+ (t +:+ NL))
  end.

Definition not_found : exn := HTTPException 404 "Resume not found".

(** Where [upload_resumes] saves a file. *)
Definition store_path (f : UploadFile) : string := os_path_join UPLOAD_DIR (filename f).

(** [open(path, "wb")] succeeds: no directory stands at [path], and the
    directory that is to hold it exists. *)
Definition writable (g : gmap string node) (path : string) : bool :=
  match g !! path with
  | Some Dir => false
  | _ => match parent_check g path with
         | None => true
         | Some _ => false
         end
  end.

(** The world after one file has been saved. *)
Definition save_one (w : world) (f : UploadFile) : world :=
  World (<[store_path f := File (file f)]> (fs w)) (io w ++ [EvOpenWrite (store_path f)]).

(** The world after the files of [batch] have been saved, in order. *)
Definition saved (w : world) (batch : list UploadFile) : world := foldl save_one w batch.

(** Every file of [batch] can be saved when its turn comes. *)
Fixpoint all_writable (w : world) (batch : list UploadFile) : bool :=
  match batch with
  | [] => true
  | f :: batch' => writable (fs w) (store_path f) && all_writable (save_one w f) batch'
  end.

(** An all-or-nothing upload, in the words of the specification: a batch
    with a refused name is rejected naming a refused file, and the store
    is as it was. *)
Definition upload_all_or_nothing : Prop :=
  forall (w : world) (batch : list UploadFile),
    Exists (fun f => is_allowed_file (filename f) = false) batch ->
    exists bad w',
      bad ∈ batch /\ is_allowed_file (filename bad) = false /\
      upload_resumes batch w = (Raise (invalid_extension (filename bad)), w') /\
      fs w' = fs w.

(** [m] leaves the file system as it is, its outcome depends on the file
    system alone, and it adds the same events to any log. *)
Definition reads_only {A} (m : M A) : Prop :=
  forall g, exists r evs, forall l, m (World g l) = (r, World g (l ++ evs)).

(** The same, and [m] raises nothing. *)
Definition reads_value {A} (m : M A) : Prop :=
  forall g, exists a evs, forall l, m (World g l) = (Ok a, World g (l ++ evs)).

(** [a] occurs in [b]: the reading of "is a substring of". *)
Definition is_substring (a b : string) : Prop :=
  exists p s, b = p +:+ a +:+ s.

(** ** Sample parsers and sample worlds

    Concrete inputs for the statements below.  A sample PDF is the marker
    [%PDF] followed by its pages, each introduced by a bar; a page that is
    a lone question mark cannot be decoded.  A sample DOCX is the marker
    [PK] followed by its paragraphs, each introduced by a bar. *)

Fixpoint split_bar (s cur : string) : list string :=
  match s with
  | EmptyString => [cur]
  | String a s' =>
      if Ascii.eqb a "|" then cur :: split_bar s' ""
      else split_bar s' (cur +:+ String a "")
  end.

Definition sample_PdfReader (data : string) : exn + list (exn + string) :=
  if str_startswith data "%PDF|" then
    inr (map (fun p => if String.eqb p "?"
                       then inl (LibraryError "cannot decode page")
                       else inr p)
             (split_bar (str_drop 5 data) ""))
  else inl (LibraryError "EOF marker not found").

Definition sample_Document (data : string) : exn + list string :=
  if str_startswith data "PK|" then inr (split_bar (str_drop 3 data) "")
  else inl (LibraryError "File is not a zip file").

(** An upload directory with nothing in it. *)
Definition empty_store : world :=
  World (<[UPLOAD_DIR := Dir]> ∅) [].

(** An upload directory with four regular files, one of them with an
    extension that [upload_resumes] refuses. *)
Definition sample_store : world :=
  World (<["uploads" := Dir]>
         (<["uploads/alice.pdf" := File "%PDF|I know Python| and SQL "]>
          (<["uploads/bob.docx" := File "PK|Python only"]>
           (<["uploads/notes.txt" := File "python"]>
            (<["uploads/zed.pdf" := File "%PDF|python java"]> ∅)))))
        [].

Definition cv_pdf : UploadFile := {| filename := "cv.pdf"; file := "%PDF|C and Rocq" |}.
Definition notes_txt : UploadFile := {| filename := "notes.txt"; file := "to do" |}.
Definition late_docx : UploadFile := {| filename := "late.docx"; file := "PK|late" |}.

(** ** The substring relation is decidable *)

Lemma str_app_nil_l (s : string) : "" +:+ s = s.
Proof. reflexivity. Qed.

Lemma str_app_cons (c : ascii) (a b : string) : String c a +:+ b = String c (a +:+ b).
Proof. reflexivity. Qed.

Lemma str_app_nil_r (s : string) : s +:+ "" = s.
Proof. induction s as [|c s IH]; [done | by rewrite str_app_cons, IH]. Qed.

Lemma str_app_assoc (a b c : string) : (a +:+ b) +:+ c = a +:+ (b +:+ c).
Proof. induction a as [|x a IH]; [done | by rewrite !str_app_cons, IH]. Qed.

Lemma str_startswith_spec (s p : string) :
  str_startswith s p = true <-> exists t, s = p +:+ t.
Proof.
  revert s; induction p as [|a p IH]; intros s; simpl.
  - split; [intros _; exists s; reflexivity | done].
  - destruct s as [|b s].
    + split; [done | intros [t Ht]; rewrite str_app_cons in Ht; discriminate].
    + rewrite andb_true_iff, IH. split.
      * intros [Hab [t ->]]. apply Ascii.eqb_eq in Hab as ->. exists t; reflexivity.
      * intros [t Ht]. rewrite str_app_cons in Ht. injection Ht as -> ->.
        split; [apply Ascii.eqb_refl | exists t; reflexivity].
Qed.

Lemma str_in_spec (a b : string) : str_in a b = true <-> is_substring a b.
Proof.
  induction b as [|c b IH].
  - simpl. rewrite orb_false_r, str_startswith_spec. split.
    + intros [t Ht]. exists "", t. exact Ht.
    + intros ([|x p] & s & H); [exists s; exact H | by rewrite str_app_cons in H].
  - cbn [str_in]. rewrite orb_true_iff, IH, str_startswith_spec. split.
    + intros [[t Ht] | (p & s & Hb)].
      * exists "", t. exact Ht.
      * exists (String c p), s. by rewrite str_app_cons, Hb.
    + intros ([|x p] & s & H).
      * left. exists s. exact H.
      * right. rewrite str_app_cons in H. injection H as -> ->. exists p, s; reflexivity.
Qed.

Global Instance is_substring_dec (a b : string) : Decision (is_substring a b).
Proof.
  destruct (str_in a b) eqn:E.
  - left. by apply str_in_spec.
  - right. intros H. apply str_in_spec in H. congruence.
Defined.

(** The keywords the specification counts for a text. *)
Definition spec_matched (T : string) (K : list string) : list string :=
  filter (fun k => is_substring (str_lower k) (str_lower T)) K.


(** * Properties *)

(** ** Path functions on sample names *)

Example splitext_plain : os_path_splitext "cv.pdf" = ("cv", ".pdf").
Proof. reflexivity. Qed.
Example splitext_dotfile : os_path_splitext ".pdf" = (".pdf", "").
Proof. reflexivity. Qed.
Example splitext_dir : os_path_splitext "up.loads/notes" = ("up.loads/notes", "").
Proof. reflexivity. Qed.
Example splitext_two : os_path_splitext "uploads/a.tar.DOCX" = ("uploads/a.tar", ".DOCX").
Proof. reflexivity. Qed.
Example join_plain : os_path_join "uploads" "cv.pdf" = "uploads/cv.pdf".
Proof. reflexivity. Qed.
Example join_abs : os_path_join "uploads" "/etc/x.pdf" = "/etc/x.pdf".
Proof. reflexivity. Qed.
Example dirname_plain : os_path_dirname "uploads/cv.pdf" = "uploads".
Proof. reflexivity. Qed.
Example dirname_none : os_path_dirname "cv.pdf" = "".
Proof. reflexivity. Qed.
Example lower_mixed : str_lower "Notes.PDF" = "notes.pdf".
Proof. reflexivity. Qed.

(** ** Strings *)

Lemma str_lower_empty (s : string) : str_lower s = "" -> s = "".
Proof. by destruct s. Qed.

Lemma is_substring_empty_r (a : string) : is_substring a "" -> a = "".
Proof.
  intros ([|x p] & s & H); [|by rewrite str_app_cons in H].
  destruct a; [done | by rewrite str_app_nil_l, str_app_cons in H].
Qed.

Lemma is_substring_empty_l (b : string) : is_substring "" b.
Proof. exists "", b; reflexivity. Qed.

(** ** The accumulating loops are filters *)

Lemma foldl_append_filter {A} (P : A -> Prop) `{!forall x, Decision (P x)}
    (p : A -> bool) (l acc : list A) :
  (forall x, p x = true <-> P x) ->
  foldl (fun acc x => if p x then acc ++ [x] else acc) acc l = acc ++ filter P l.
Proof.
  intros Hp. revert acc; induction l as [|x l IH]; intros acc; simpl.
  - by rewrite app_nil_r.
  - rewrite IH. destruct (p x) eqn:E.
    + rewrite filter_cons_True by (by apply Hp). by rewrite <- app_assoc.
    + rewrite filter_cons_False; [done|]. rewrite <- Hp. congruence.
Qed.

Lemma search_keywords_nonempty (c : ascii) (T : string) (K : list string) :
  search_keywords (Some (String c T)) K =
  {| matched_keywords := spec_matched (String c T) K;
     score := Z.of_nat (length (spec_matched (String c T) K)) |}.
Proof.
  unfold search_keywords, spec_matched.
  rewrite (foldl_append_filter
             (fun k => is_substring (str_lower k) (str_lower (String c T)))).
  - done.
  - intros k. apply str_in_spec.
Qed.

Lemma spec_matched_empty_text (K : list string) :
  "" ∉ K -> spec_matched "" K = [].
Proof.
  intros HK. unfold spec_matched. induction K as [|k K IH]; [done|].
  rewrite filter_cons_False.
  - apply IH. set_solver.
  - simpl. intros H%is_substring_empty_r%str_lower_empty. set_solver.
Qed.

(** C2, as amended: for every keyword list [K] and every text [T] that is
    not empty, or with no empty keyword in [K], [matched_keywords] is the
    list of the elements of [K] whose lowercase form is a substring of
    the lowercase of [T], in the order of [K], in their own casing and
    with their repetitions, and [score] is the number of those elements,
    which is the length of [matched_keywords]. *)
Theorem search_keywords_counts (T : string) (K : list string) :
  T <> "" \/ "" ∉ K ->
  let r := search_keywords (Some T) K in
  matched_keywords r = spec_matched T K /\
  score r = Z.of_nat (length (spec_matched T K)) /\
  score r = Z.of_nat (length (matched_keywords r)).
Proof.
  intros H. destruct T as [|c T].
  - destruct H as [H|H]; [done|]. simpl. by rewrite spec_matched_empty_text.
  - cbv zeta. by rewrite search_keywords_nonempty.
Qed.

Lemma search_keywords_counts_witness :
  let r := search_keywords (Some "Python and SQL") ["SQL"; "java"; "python"; "sql"] in
  matched_keywords r = ["SQL"; "python"; "sql"] /\ score r = 3.
Proof.
  destruct (search_keywords_counts "Python and SQL" ["SQL"; "java"; "python"; "sql"])
    as (H1 & H2 & _); [left; discriminate|].
  split; [exact H1 | exact H2].
Defined.

(** The claim without the amendment fails on the empty text with the
    empty keyword: the specification counts one match, the code none. *)
Lemma search_keywords_empty_text_counterexample :
  ~ (forall (T : string) (K : list string),
       matched_keywords (search_keywords (Some T) K) = spec_matched T K /\
       score (search_keywords (Some T) K) = Z.of_nat (length (spec_matched T K))).
Proof. intros H. destruct (H "" [""]) as [_ H']. vm_compute in H'. discriminate. Qed.

(** C5: for every keyword list, an absent text and the empty text both
    give the result with no matched keyword and score 0; the function
    returns this value, it raises nothing. *)
Theorem search_keywords_no_text (K : list string) :
  search_keywords None K = {| matched_keywords := []; score := 0 |} /\
  search_keywords (Some "") K = {| matched_keywords := []; score := 0 |}.
Proof. done. Qed.

Lemma spec_matched_app (T : string) (K1 K2 : list string) :
  spec_matched T (K1 ++ K2) = spec_matched T K1 ++ spec_matched T K2.
Proof. unfold spec_matched. apply filter_app. Qed.

(** C9: for every text that is not empty, an empty keyword at any place of
    the keyword list is appended to [matched_keywords] at that place and
    adds one to [score]; for the absent and for the empty text the score
    of the same list is 0. *)
Theorem empty_keyword_always_matches (T : string) (pre post : list string) :
  T <> "" ->
  let r := search_keywords (Some T) (pre ++ "" :: post) in
  matched_keywords r =
    matched_keywords (search_keywords (Some T) pre) ++
    "" :: matched_keywords (search_keywords (Some T) post) /\
  score r = score (search_keywords (Some T) pre) + 1
            + score (search_keywords (Some T) post) /\
  score (search_keywords None (pre ++ "" :: post)) = 0 /\
  score (search_keywords (Some "") (pre ++ "" :: post)) = 0.
Proof.
  intros HT. destruct T as [|c T]; [done|]. cbv zeta.
  rewrite !search_keywords_nonempty. cbn [matched_keywords score].
  rewrite spec_matched_app.
  assert (spec_matched (String c T) ("" :: post) = "" :: spec_matched (String c T) post) as ->.
  { unfold spec_matched. rewrite filter_cons_True; [done|]. apply is_substring_empty_l. }
  split; [done|]. split; [|done].
  rewrite length_app. simpl. lia.
Qed.

Lemma empty_keyword_always_matches_witness :
  matched_keywords (search_keywords (Some "Go") ["go"; ""; "c"; ""]) = ["go"; ""; ""] /\
  score (search_keywords (Some "Go") ["go"; ""; "c"; ""]) = 3.
Proof.
  destruct (empty_keyword_always_matches "Go" ["go"] ["c"; ""]) as (H1 & H2 & _);
    [discriminate|].
  split; [exact H1 | exact H2].
Defined.

(** ** Trimming *)

Lemma str_rstrip_snoc_space (s : string) (c : ascii) :
  chr_isspace c = true -> str_rstrip (s +:+ String c "") = str_rstrip s.
Proof.
  intros Hc. induction s as [|a s IH].
  - rewrite str_app_nil_l. simpl. by rewrite Hc.
  - rewrite str_app_cons. simpl. by rewrite IH.
Qed.

Lemma str_strip_snoc_space (s : string) (c : ascii) :
  chr_isspace c = true -> str_strip (s +:+ String c "") = str_strip s.
Proof.
  intros Hc. unfold str_strip. induction s as [|a s IH].
  - rewrite str_app_nil_l. simpl. by rewrite Hc.
  - rewrite str_app_cons. simpl. destruct (chr_isspace a); [exact IH|].
    rewrite <- str_app_cons. by apply str_rstrip_snoc_space.
Qed.

Lemma pages_text_acc (texts : list string) (text : string) :
  pages_text texts text = text +:+ pages_text texts "".
Proof.
  revert text; induction texts as [|t texts IH]; intros text; simpl.
  - by rewrite str_app_nil_r.
  - rewrite IH, (IH ("" +:+ _)), str_app_nil_l. by rewrite str_app_assoc.
Qed.

Lemma pages_text_concat (t : string) (texts : list string) :
  pages_text (t :: texts) "" = String.concat NL (t :: texts) +:+ NL.
Proof.
  revert t; induction texts as [|t' texts IH]; intros t.
  - reflexivity.
  - change (pages_text (t :: t' :: texts) "")
      with (pages_text (t' :: texts) ("" +:+ (t +:+ NL))).
    rewrite pages_text_acc, IH, str_app_nil_l.
    change (String.concat NL (t :: t' :: texts))
      with (t +:+ (NL +:+ String.concat NL (t' :: texts))).
    by rewrite !str_app_assoc.
Qed.

Lemma strip_pages_text (texts : list string) :
  str_strip (pages_text texts "") = str_strip (String.concat NL texts).
Proof.
  destruct texts as [|t texts]; [done|].
  rewrite pages_text_concat. by apply str_strip_snoc_space.
Qed.

(** ** Running the monad *)

Ltac run :=
  repeat progress
    (unfold extract_text_from_pdf, extract_text_from_docx, os_path_exists,
       os_listdir, open_rb, open_wb_copy, os_remove, print, try_except, bind,
       ret, raise, log, get_fs, put_fs, lift;
     cbn [fs io fst snd]).

Ltac run_with H := repeat first [progress run | rewrite H | progress simpl].

Section ParserProperties.

Variable PdfReader : string -> exn + list (exn + string).
Variable Document : string -> exn + list string.

Lemma pdf_pages_loop_all (texts : list string) (text : string) (w : world) :
  pdf_pages_loop (map inr texts) text w = (Ok (pages_text texts text), w).
Proof.
  revert text; induction texts as [|t texts IH]; intros text; [done|].
  simpl. run. apply IH.
Qed.

(** C3: when the file at [file_path] is a PDF whose pages all decode, to
    [texts], [extract_text_from_pdf] returns the page texts joined by one
    newline and trimmed at both ends, although the code appends a
    newline after every page before it trims; the file is opened once
    and the file system is unchanged. *)
Theorem extract_text_from_pdf_joins_pages
    (w : world) (file_path data : string) (texts : list string) :
  fs w !! file_path = Some (File data) ->
  PdfReader data = inr (map inr texts) ->
  extract_text_from_pdf PdfReader file_path w =
    (Ok (Some (str_strip (String.concat NL texts))),
     World (fs w) (io w ++ [EvOpenRead file_path])).
Proof.
  intros Hfile Hpages. run. rewrite Hfile, Hpages. run.
  rewrite pdf_pages_loop_all. by rewrite strip_pages_text.
Qed.

(** C6: when the lowercased extension of the path is neither [.pdf] nor
    [.docx], [extract_text] returns [None]; the one event of the run is
    the printed line, so no file was opened or parsed. *)
Theorem extract_text_unsupported (w : world) (file_path : string) :
  let extension := str_lower (os_path_splitext file_path).2 in
  extension <> ".pdf" ->
  extension <> ".docx" ->
  extract_text PdfReader Document file_path w =
    (Ok None,
     World (fs w) (io w ++ [EvPrint ("Unsupported file format: " +:+ extension)])).
Proof.
  intros extension Hpdf Hdocx. unfold extract_text. fold extension.
  apply String.eqb_neq in Hpdf, Hdocx. rewrite Hpdf, Hdocx. reflexivity.
Qed.

End ParserProperties.

Lemma extract_text_from_pdf_joins_pages_witness :
  extract_text_from_pdf sample_PdfReader "uploads/alice.pdf" sample_store =
    (Ok (Some ("I know Python" +:+ NL +:+ " and SQL")),
     World (fs sample_store) [EvOpenRead "uploads/alice.pdf"]).
Proof.
  exact (extract_text_from_pdf_joins_pages sample_PdfReader sample_store
           "uploads/alice.pdf" "%PDF|I know Python| and SQL "
           ["I know Python"; " and SQL "] eq_refl eq_refl).
Defined.

Lemma extract_text_unsupported_witness :
  extract_text sample_PdfReader sample_Document "uploads/notes.txt" sample_store =
    (Ok None, World (fs sample_store) [EvPrint "Unsupported file format: .txt"]).
Proof.
  apply (extract_text_unsupported sample_PdfReader sample_Document sample_store
           "uploads/notes.txt"); vm_compute; discriminate.
Defined.

(** ** Deleting *)

Lemma delete_resume_absent (w : world) (name : string) :
  fs w !! os_path_join UPLOAD_DIR name = None ->
  delete_resume name w =
    (Raise not_found, World (fs w) (io w ++ [EvExists (os_path_join UPLOAD_DIR name)])).
Proof. intros H. unfold delete_resume. by run_with H. Qed.

Lemma delete_resume_file (w : world) (name data : string) :
  let path := os_path_join UPLOAD_DIR name in
  fs w !! path = Some (File data) ->
  delete_resume name w =
    (Ok ("Resume " +:+ name +:+ " deleted successfully"),
     World (delete path (fs w)) (io w ++ [EvExists path; EvRemove path])).
Proof.
  intros path H. unfold delete_resume. fold path. run_with H.
  by rewrite <- app_assoc.
Qed.

Lemma delete_resume_dir (w : world) (name : string) :
  let path := os_path_join UPLOAD_DIR name in
  fs w !! path = Some Dir ->
  delete_resume name w =
    (Raise (HTTPException 500 ("Failed to delete resume: " +:+ exn_str (EISDIR path))),
     World (fs w) (io w ++ [EvExists path; EvRemove path])).
Proof.
  intros path H. unfold delete_resume. fold path. run_with H.
  by rewrite <- app_assoc.
Qed.

(** C8: when nothing stands at the joined store path, [delete_resume]
    raises the not-found error (status 404) and the file system is
    unchanged; when a file stands there, it returns its message and the
    file system is the former one without that file. *)
Theorem delete_resume_not_found_or_removed (w : world) (name : string) :
  let path := os_path_join UPLOAD_DIR name in
  (fs w !! path = None ->
   exists w', delete_resume name w = (Raise not_found, w') /\ fs w' = fs w) /\
  (forall data, fs w !! path = Some (File data) ->
   exists msg w', delete_resume name w = (Ok msg, w') /\
                  fs w' = delete path (fs w) /\ fs w' !! path = None).
Proof.
  intros path. split.
  - intros H. eexists. split; [by apply delete_resume_absent | done].
  - intros data H. do 2 eexists. split; [by eapply delete_resume_file|].
    split; [done | apply lookup_delete_eq].
Qed.

Lemma delete_resume_not_found_or_removed_witness :
  (exists w', delete_resume "carol.pdf" sample_store = (Raise not_found, w') /\
              fs w' = fs sample_store) /\
  (exists msg w', delete_resume "bob.docx" sample_store = (Ok msg, w') /\
                  fs w' !! "uploads/bob.docx" = None).
Proof.
  split.
  - apply (delete_resume_not_found_or_removed sample_store "carol.pdf"). reflexivity.
  - destruct (proj2 (delete_resume_not_found_or_removed sample_store "bob.docx")
                "PK|Python only" eq_refl) as (msg & w' & H1 & _ & H2).
    by exists msg, w'.
Defined.

(** ** Listing *)

Lemma get_uploaded_resumes_run (w : world) :
  fs w !! UPLOAD_DIR = Some Dir ->
  get_uploaded_resumes w =
    (Ok (filter (fun n => is_allowed_file n = true) (dir_entries UPLOAD_DIR (fs w))),
     World (fs w) (io w ++ [EvExists UPLOAD_DIR; EvListdir UPLOAD_DIR])).
Proof.
  intros H. unfold get_uploaded_resumes. run_with H.
  rewrite <- app_assoc.
  by rewrite (foldl_append_filter (fun n => is_allowed_file n = true)).
Qed.

Lemma get_uploaded_resumes_allowed (w w' : world) (names : list string) (n : string) :
  get_uploaded_resumes w = (Ok names, w') -> n ∈ names -> is_allowed_file n = true.
Proof.
  unfold get_uploaded_resumes. run.
  destruct (fs w !! UPLOAD_DIR) as [[data|]|] eqn:E; run_with E.
  - intros [=].
  - rewrite (foldl_append_filter (fun n => is_allowed_file n = true)) by done.
    intros [= <- _]. simpl. by intros [? _]%list_elem_of_filter.
  - intros [= <- _]. by intros ?%not_elem_of_nil.
Qed.

(** C10: [delete_resume] raises not-found exactly when nothing stands at
    the joined store path, whatever the extension; a stored file whose
    extension [is_allowed_file] refuses is in no list that
    [get_uploaded_resumes] returns, and yet it is deleted. *)
Theorem delete_resume_ignores_extension (w : world) (name : string) :
  let path := os_path_join UPLOAD_DIR name in
  ((delete_resume name w).1 = Raise not_found <-> fs w !! path = None) /\
  (forall data,
     is_allowed_file name = false ->
     fs w !! path = Some (File data) ->
     (forall names w', get_uploaded_resumes w = (Ok names, w') -> name ∉ names) /\
     exists msg w', delete_resume name w = (Ok msg, w') /\ fs w' = delete path (fs w)).
Proof.
  intros path. split.
  - split.
    + destruct (fs w !! path) as [[data|]|] eqn:E; [| |done].
      * by rewrite (delete_resume_file w name data E).
      * by rewrite (delete_resume_dir w name E).
    + intros H. by rewrite delete_resume_absent.
  - intros data Hext H. split.
    + intros names w' Hrun Hin.
      apply (get_uploaded_resumes_allowed _ _ _ _ Hrun) in Hin. congruence.
    + do 2 eexists. split; [by eapply delete_resume_file | done].
Qed.

Lemma delete_resume_ignores_extension_witness :
  (get_uploaded_resumes sample_store).1 = Ok ["alice.pdf"; "zed.pdf"; "bob.docx"] /\
  exists msg w', delete_resume "notes.txt" sample_store = (Ok msg, w') /\
                 fs w' = delete "uploads/notes.txt" (fs sample_store).
Proof.
  split; [reflexivity|].
  exact (proj2 (proj2 (delete_resume_ignores_extension sample_store "notes.txt")
                  "python" eq_refl eq_refl)).
Defined.

(** ** The directory listing and the store *)

Lemma substring_all (s : string) : String.substring 0 (String.length s) s = s.
Proof. induction s as [|c s IH]; simpl; [done | by rewrite IH]. Qed.

Lemma str_drop_app (p s : string) : str_drop (str_len p) (p +:+ s) = s.
Proof.
  unfold str_drop, str_len. rewrite Nat2Z.id.
  induction p as [|c p IH].
  - rewrite str_app_nil_l. simpl. rewrite Nat.sub_0_r. apply substring_all.
  - rewrite str_app_cons. simpl. exact IH.
Qed.

Lemma entry_name_Some (d key n : string) :
  entry_name d key = Some n <-> key = os_path_join d "" +:+ n /\ plain_name n.
Proof.
  unfold entry_name, plain_name. split.
  - destruct (str_startswith key _) eqn:Hpre; [|done].
    apply str_startswith_spec in Hpre as [t ->]. rewrite str_drop_app.
    destruct (String.eqb t "") eqn:Hne; [done|].
    destruct (str_in _ t) eqn:Hsep; [done|]. simpl.
    intros [= <-]. apply String.eqb_neq in Hne. done.
  - intros [-> [Hne Hsep]].
    assert (str_startswith (os_path_join d "" +:+ n) (os_path_join d "") = true) as ->.
    { apply str_startswith_spec. by exists n. }
    rewrite str_drop_app, Hsep. apply String.eqb_neq in Hne. by rewrite Hne.
Qed.

Lemma plain_name_join (n : string) :
  plain_name n -> os_path_join UPLOAD_DIR n = os_path_join UPLOAD_DIR "" +:+ n.
Proof.
  intros [Hne Hsep]. unfold os_path_join.
  destruct n as [|c n]; [done|].
  cbn [str_in] in Hsep. apply orb_false_iff in Hsep as [-> _]. reflexivity.
Qed.

(** The listing of the upload directory names exactly the plain names
    under which the file system has a node at the joined path. *)
Lemma dir_entries_stored (g : gmap string node) (n : string) :
  n ∈ dir_entries UPLOAD_DIR g <->
  plain_name n /\ is_Some (g !! os_path_join UPLOAD_DIR n).
Proof.
  unfold dir_entries. rewrite list_elem_of_omap. split.
  - intros ([key x] & Hin & Hname). simpl in Hname.
    apply entry_name_Some in Hname as [-> Hplain]. split; [done|].
    rewrite plain_name_join by done. apply elem_of_map_to_list in Hin. by exists x.
  - intros [Hplain [x Hx]]. exists (os_path_join UPLOAD_DIR n, x). split.
    + by apply elem_of_map_to_list.
    + simpl. apply entry_name_Some. split; [by apply plain_name_join | done].
Qed.

Lemma entry_name_inj (d k1 k2 n : string) :
  entry_name d k1 = Some n -> entry_name d k2 = Some n -> k1 = k2.
Proof. intros [-> _]%entry_name_Some [-> _]%entry_name_Some. done. Qed.

Lemma NoDup_omap_inj {A B} (f : A -> option B) (l : list A) :
  (forall x y b, x ∈ l -> y ∈ l -> f x = Some b -> f y = Some b -> x = y) ->
  NoDup l -> NoDup (omap f l).
Proof.
  intros Hinj Hl. induction Hl as [|x l Hx Hl IH]; simpl; [constructor|].
  assert (NoDup (omap f l)) as Hrest.
  { apply IH. intros y z b Hy Hz. apply Hinj; by right. }
  destruct (f x) as [b|] eqn:E; [|done].
  constructor; [|done].
  intros (y & Hy & Hfy)%list_elem_of_omap.
  rewrite (Hinj x y b) in Hx; [done | by left | by right | done | done].
Qed.

(** No name is listed twice. *)
Lemma dir_entries_NoDup (d : string) (g : gmap string node) : NoDup (dir_entries d g).
Proof.
  unfold dir_entries. apply NoDup_omap_inj; [|apply NoDup_map_to_list].
  intros [k1 x1] [k2 x2] n Hin1 Hin2 H1 H2. simpl in *.
  pose proof (entry_name_inj _ _ _ _ H1 H2) as ->.
  apply elem_of_map_to_list in Hin1, Hin2. congruence.
Qed.

Lemma documents_NoDup (g : gmap string node) : NoDup (documents g).
Proof. apply NoDup_filter, dir_entries_NoDup. Qed.

Lemma documents_stored (g : gmap string node) (n : string) :
  n ∈ documents g <->
  is_allowed_file n = true /\ plain_name n /\ is_Some (g !! os_path_join UPLOAD_DIR n).
Proof. unfold documents. by rewrite list_elem_of_filter, dir_entries_stored. Qed.

(** ** Uploading *)

Lemma open_wb_copy_writable (w : world) (f : UploadFile) :
  writable (fs w) (store_path f) = true ->
  open_wb_copy (store_path f) (file f) w = (Ok tt, save_one w f).
Proof.
  unfold writable, open_wb_copy, save_one. run.
  destruct (fs w !! store_path f) as [[data|]|];
    destruct (parent_check (fs w) (store_path f)); done.
Qed.

(** A plain sufficient condition: the upload directory exists, and every
    file of the batch goes directly into it, where no directory has its
    name. *)
Lemma all_writable_in_upload_dir (w : world) (batch : list UploadFile) :
  fs w !! UPLOAD_DIR = Some Dir ->
  Forall (fun f => os_path_dirname (store_path f) = UPLOAD_DIR /\
                   fs w !! store_path f <> Some Dir) batch ->
  all_writable w batch = true.
Proof.
  revert w; induction batch as [|f batch IH]; intros w Hdir Hall; [done|].
  apply Forall_cons in Hall as [[Hparent Hnode] Hall]. simpl.
  assert (store_path f <> UPLOAD_DIR) as Hne by congruence.
  apply andb_true_iff. split.
  - unfold writable, parent_check. rewrite Hparent, Hdir. simpl.
    by destruct (fs w !! store_path f) as [[data|]|].
  - apply IH; simpl.
    + by rewrite lookup_insert_ne.
    + eapply Forall_impl; [exact Hall|]. intros f' [Hparent' Hnode']. split; [done|].
      destruct (decide (store_path f = store_path f')) as [<-|Hother].
      * by rewrite lookup_insert_eq.
      * by rewrite lookup_insert_ne.
Qed.

Lemma upload_loop_prefix (pre rest : list UploadFile) (acc : list string) (w : world) :
  Forall (fun f => is_allowed_file (filename f) = true) pre ->
  all_writable w pre = true ->
  upload_loop (pre ++ rest) acc w =
  upload_loop rest (acc ++ map filename pre) (saved w pre).
Proof.
  revert acc w; induction pre as [|f pre IH]; intros acc w Hall Hw.
  - simpl. by rewrite app_nil_r.
  - apply Forall_cons in Hall as [Hf Hall]. simpl in Hw.
    apply andb_true_iff in Hw as [Hwf Hw].
    cbn [app upload_loop]. rewrite Hf. cbn [negb].
    fold (store_path f). unfold bind at 1, try_except, bind at 1.
    rewrite (open_wb_copy_writable _ _ Hwf). cbn [ret].
    rewrite IH by done. simpl. by rewrite <- app_assoc.
Qed.

Lemma saved_io (w : world) (batch : list UploadFile) :
  io (saved w batch) = io w ++ map (fun f => EvOpenWrite (store_path f)) batch.
Proof.
  revert w; induction batch as [|f batch IH]; intros w; simpl.
  - by rewrite app_nil_r.
  - unfold saved in IH. rewrite IH. simpl. by rewrite <- app_assoc.
Qed.

Lemma saved_other (w : world) (batch : list UploadFile) (p : string) :
  p ∉ map store_path batch -> fs (saved w batch) !! p = fs w !! p.
Proof.
  revert w; induction batch as [|f batch IH]; intros w Hp; [done|].
  simpl in *. apply not_elem_of_cons in Hp as [Hne Hp].
  unfold saved in IH. rewrite IH by done. simpl. by rewrite lookup_insert_ne.
Qed.

Lemma saved_file (w : world) (batch : list UploadFile) (p : string) :
  p ∈ map store_path batch -> exists data, fs (saved w batch) !! p = Some (File data).
Proof.
  revert w; induction batch as [|f batch IH]; intros w Hin.
  - by apply not_elem_of_nil in Hin.
  - change (saved w (f :: batch)) with (saved (save_one w f) batch).
    destruct (decide (p ∈ map store_path batch)) as [Hlater|Hlater].
    + by apply IH.
    + rewrite saved_other by done.
      apply elem_of_cons in Hin as [->|Hin]; [|done].
      exists (file f). simpl. apply lookup_insert_eq.
Qed.

(** C1, as amended: when the files before the first refused name of a
    batch are all saved without a storage error, [upload_resumes] raises
    the invalid-extension error (status 400) naming that first refused
    file; the files before it have been written to the store, one write
    each in order, and no other path of the store has changed, so the
    refused file and the files after it are not written. *)
Theorem upload_resumes_stops_at_first_invalid
    (w : world) (pre rest : list UploadFile) (bad : UploadFile) :
  Forall (fun f => is_allowed_file (filename f) = true) pre ->
  is_allowed_file (filename bad) = false ->
  all_writable w pre = true ->
  upload_resumes (pre ++ bad :: rest) w =
    (Raise (invalid_extension (filename bad)), saved w pre) /\
  io (saved w pre) = io w ++ map (fun f => EvOpenWrite (store_path f)) pre /\
  (forall f, f ∈ pre ->
     exists data, fs (saved w pre) !! store_path f = Some (File data)) /\
  (forall p, p ∉ map store_path pre -> fs (saved w pre) !! p = fs w !! p).
Proof.
  intros Hpre Hbad Hw. split; [|split; [|split]].
  - unfold upload_resumes.
    destruct (pre ++ bad :: rest) eqn:E; [by destruct pre|]. rewrite <- E.
    unfold bind. rewrite upload_loop_prefix by done.
    simpl. by rewrite Hbad.
  - apply saved_io.
  - intros f Hf. apply saved_file, list_elem_of_fmap. by exists f.
  - intros p. apply saved_other.
Qed.

Lemma upload_resumes_stops_at_first_invalid_witness :
  upload_resumes [cv_pdf; notes_txt; late_docx] empty_store =
    (Raise (invalid_extension "notes.txt"), saved empty_store [cv_pdf]) /\
  fs (saved empty_store [cv_pdf]) !! "uploads/cv.pdf" = Some (File "%PDF|C and Rocq") /\
  fs (saved empty_store [cv_pdf]) !! "uploads/late.docx" = None.
Proof.
  destruct (upload_resumes_stops_at_first_invalid empty_store [cv_pdf] [late_docx] notes_txt)
    as (H & _ & _ & _).
  - repeat constructor.
  - reflexivity.
  - reflexivity.
  - split; [exact H | split; reflexivity].
Defined.

(** The claim without the amendment fails on a batch whose second name
    is refused: the first file is in the store when the error is raised. *)
Lemma upload_not_all_or_nothing : ~ upload_all_or_nothing.
Proof.
  intros H.
  destruct (H empty_store [cv_pdf; notes_txt]) as (bad & w' & _ & _ & Hrun & Hfs).
  { apply Exists_cons_tl, Exists_cons_hd. reflexivity. }
  assert (fs w' !! "uploads/cv.pdf" = Some (File "%PDF|C and Rocq")) as Hcv.
  { change (upload_resumes [cv_pdf; notes_txt] empty_store)
      with (@Raise UploadResponse (invalid_extension "notes.txt"), saved empty_store [cv_pdf])
      in Hrun.
    injection Hrun as _ <-. reflexivity. }
  rewrite Hfs in Hcv. discriminate Hcv.
Qed.


(** ** Computations that only read *)

Lemma reads_value_only {A} (m : M A) : reads_value m -> reads_only m.
Proof. intros H g. destruct (H g) as (a & evs & Hm). by exists (Ok a), evs. Qed.

Lemma reads_ret {A} (a : A) : reads_value (ret a).
Proof. intros g. exists a, []. intros l. by rewrite app_nil_r. Qed.

Lemma reads_raise {A} (e : exn) : reads_only (@raise A e).
Proof. intros g. exists (Raise e), []. intros l. by rewrite app_nil_r. Qed.

Lemma reads_lift {A} (r : exn + A) : reads_only (lift r).
Proof. destruct r; [apply reads_raise | apply reads_value_only, reads_ret]. Qed.

Lemma reads_log (e : event) : reads_value (log e).
Proof. intros g. by exists tt, [e]. Qed.

Lemma reads_get_fs : reads_value get_fs.
Proof. intros g. exists g, []. intros l. by rewrite app_nil_r. Qed.

Lemma reads_bind {A B} (m : M A) (k : A -> M B) :
  reads_only m -> (forall a, reads_only (k a)) -> reads_only (bind m k).
Proof.
  intros Hm Hk g. destruct (Hm g) as ([a|e] & evs & Hrun).
  - destruct (Hk a g) as (r & evs' & Hrun').
    exists r, (evs ++ evs'). intros l. unfold bind.
    by rewrite Hrun, Hrun', app_assoc.
  - exists (Raise e), evs. intros l. unfold bind. by rewrite Hrun.
Qed.

Lemma reads_bind_value {A B} (m : M A) (k : A -> M B) :
  reads_value m -> (forall a, reads_value (k a)) -> reads_value (bind m k).
Proof.
  intros Hm Hk g. destruct (Hm g) as (a & evs & Hrun).
  destruct (Hk a g) as (b & evs' & Hrun').
  exists b, (evs ++ evs'). intros l. unfold bind.
  by rewrite Hrun, Hrun', app_assoc.
Qed.

Lemma reads_try_except {A} (m : M A) (h : exn -> M A) :
  reads_only m -> (forall e, reads_value (h e)) -> reads_value (try_except m h).
Proof.
  intros Hm Hh g. destruct (Hm g) as ([a|e] & evs & Hrun).
  - exists a, evs. intros l. unfold try_except. by rewrite Hrun.
  - destruct (Hh e g) as (a & evs' & Hrun').
    exists a, (evs ++ evs'). intros l. unfold try_except.
    by rewrite Hrun, Hrun', app_assoc.
Qed.

Lemma reads_open_rb (path : string) : reads_only (open_rb path).
Proof.
  unfold open_rb. apply reads_bind; [apply reads_value_only, reads_log|]. intros _.
  apply reads_bind; [apply reads_value_only, reads_get_fs|]. intros f.
  destruct (f !! path) as [[data|]|];
    [apply reads_value_only, reads_ret | apply reads_raise | apply reads_raise].
Qed.

Lemma reads_print_none {A} (line : string) :
  reads_value (print line ;; ret (@None A)).
Proof. apply reads_bind_value; [apply reads_log | intros _; apply reads_ret]. Qed.

(** ** Sorting *)

Section Sorting.

Context {A : Type} (key : A -> Z).

Lemma insert_desc_perm (x : A) (l : list A) : insert_desc key x l ≡ₚ x :: l.
Proof.
  induction l as [|y l IH]; simpl; [done|].
  destruct (key x <? key y); [|done].
  rewrite IH. apply Permutation_swap.
Qed.

Lemma sort_reverse_perm (l : list A) : sort_reverse key l ≡ₚ l.
Proof.
  induction l as [|x l IH]; [done|].
  change (sort_reverse key (x :: l)) with (insert_desc key x (sort_reverse key l)).
  by rewrite insert_desc_perm, IH.
Qed.

Lemma insert_desc_descending (x : A) (l : list A) :
  descending key l -> descending key (insert_desc key x l).
Proof.
  unfold descending. induction 1 as [|y l Hl IH Hy]; simpl.
  - repeat constructor.
  - destruct (key x <? key y) eqn:E.
    + apply Z.ltb_lt in E. constructor; [done|].
      rewrite insert_desc_perm. constructor; [lia | done].
    + apply Z.ltb_ge in E. constructor; [by constructor|].
      constructor; [done|]. eapply Forall_impl; [exact Hy|]. simpl. lia.
Qed.

Lemma sort_reverse_descending (l : list A) : descending key (sort_reverse key l).
Proof.
  induction l as [|x l IH]; [constructor|].
  change (sort_reverse key (x :: l)) with (insert_desc key x (sort_reverse key l)).
  by apply insert_desc_descending.
Qed.

Lemma insert_desc_stable (x : A) (l : list A) (s : Z) :
  filter (fun a => key a = s) (insert_desc key x l) =
  filter (fun a => key a = s) (x :: l).
Proof.
  induction l as [|y l IH]; simpl; [done|].
  destruct (key x <? key y) eqn:E; [|done].
  apply Z.ltb_lt in E.
  rewrite (filter_cons _ y), IH, !(filter_cons _ x), (filter_cons _ y).
  repeat case_decide; (done || lia).
Qed.

Lemma sort_reverse_stable (l : list A) (s : Z) :
  filter (fun a => key a = s) (sort_reverse key l) = filter (fun a => key a = s) l.
Proof.
  induction l as [|x l IH]; [done|].
  change (sort_reverse key (x :: l)) with (insert_desc key x (sort_reverse key l)).
  by rewrite insert_desc_stable, !filter_cons, IH.
Qed.

End Sorting.

Lemma search_keywords_falsy (text : option string) (K : list string) :
  truthy text = false -> score (search_keywords text K) = 0.
Proof. by destruct text as [[|c T]|]. Qed.

(** ** Filtering *)

Section FilterProperties.

Variable PdfReader : string -> exn + list (exn + string).
Variable Document : string -> exn + list string.

(** C7: a filter request with no keyword raises the invalid-input error
    (status 400), and the world it leaves is the world it found: the file
    system is untouched and the log has no new event, so nothing was
    listed or read. *)
Theorem filter_resumes_no_keywords (w : world) :
  filter_resumes PdfReader Document [] w =
    (Raise (HTTPException 400 "No keywords provided"), w).
Proof. reflexivity. Qed.

Lemma reads_pdf_pages_loop (pages : list (exn + string)) (text : string) :
  reads_only (pdf_pages_loop pages text).
Proof.
  revert text; induction pages as [|page pages IH]; intros text; simpl.
  - apply reads_value_only, reads_ret.
  - apply reads_bind; [apply reads_lift | intros t; apply IH].
Qed.

Lemma reads_extract_text (file_path : string) :
  reads_value (extract_text PdfReader Document file_path).
Proof.
  unfold extract_text.
  destruct (String.eqb _ ".pdf"); [|destruct (String.eqb _ ".docx")].
  - apply reads_try_except; [|intros e; apply reads_print_none].
    apply reads_bind; [apply reads_open_rb | intros data].
    apply reads_bind; [apply reads_lift | intros pages].
    apply reads_bind; [apply reads_pdf_pages_loop | intros text].
    apply reads_value_only, reads_ret.
  - apply reads_try_except; [|intros e; apply reads_print_none].
    apply reads_bind; [apply reads_open_rb | intros data].
    apply reads_bind; [apply reads_lift | intros paragraphs].
    apply reads_value_only, reads_ret.
  - apply reads_print_none.
Qed.

Lemma extract_text_run (file_path : string) (w : world) :
  exists evs,
    extract_text PdfReader Document file_path w =
      (Ok (document_text PdfReader Document (fs w) file_path), World (fs w) (io w ++ evs)).
Proof.
  destruct (reads_extract_text file_path (fs w)) as (text & evs & Hrun).
  exists evs. unfold document_text. rewrite Hrun. simpl.
  destruct w as [g l]. apply Hrun.
Qed.

Lemma filter_loop_run (K resumes : list string) (acc : list ResumeMatch) (w : world) :
  exists evs,
    filter_loop PdfReader Document K resumes acc w =
      (Ok (acc ++ filter (fun m => 0 < rm_score m)
                         (map (scored PdfReader Document (fs w) K) resumes)),
       World (fs w) (io w ++ evs)).
Proof.
  revert acc w; induction resumes as [|name resumes IH]; intros acc w.
  - exists []. simpl. by rewrite !app_nil_r; destruct w.
  - destruct (extract_text_run (os_path_join UPLOAD_DIR name) w) as (evs & Hrun).
    cbn [filter_loop map]. unfold bind at 1. rewrite Hrun.
    set (text := document_text PdfReader Document (fs w) (os_path_join UPLOAD_DIR name)).
    set (w1 := World (fs w) (io w ++ evs)).
    assert (rm_score (scored PdfReader Document (fs w) K name)
            = score (search_keywords text K)) as Hs by done.
    destruct (truthy text) eqn:Ht;
      [destruct (0 <? score (search_keywords text K)) eqn:Hpos|].
    + destruct (IH (acc ++ [scored PdfReader Document (fs w) K name]) w1) as (evs' & Hrun').
      exists (evs ++ evs'). etrans; [exact Hrun'|]. apply Z.ltb_lt in Hpos.
      rewrite filter_cons_True by lia.
      subst w1; simpl. by rewrite <- !app_assoc.
    + destruct (IH acc w1) as (evs' & Hrun').
      exists (evs ++ evs'). etrans; [exact Hrun'|]. apply Z.ltb_ge in Hpos.
      rewrite filter_cons_False by lia.
      subst w1; simpl. by rewrite <- !app_assoc.
    + destruct (IH acc w1) as (evs' & Hrun').
      exists (evs ++ evs'). etrans; [exact Hrun'|].
      apply (search_keywords_falsy _ K) in Ht.
      rewrite filter_cons_False by lia.
      subst w1; simpl. by rewrite <- !app_assoc.
Qed.

(** C4: for every world whose upload directory exists and every keyword
    list that is not empty, [filter_resumes] returns an answer; its list
    holds exactly the entries of the stored documents whose score is
    positive, it is descending by score, and for every score the entries
    with that score stand in the order of the directory listing; the
    file system is unchanged and [total_resumes] counts the stored
    documents. *)
Theorem filter_resumes_sorted_stable (w : world) (K : list string) :
  K <> [] ->
  fs w !! UPLOAD_DIR = Some Dir ->
  let hits := filter (fun m => 0 < rm_score m)
                     (map (scored PdfReader Document (fs w) K) (documents (fs w))) in
  exists r w',
    filter_resumes PdfReader Document K w = (Ok r, w') /\
    fs w' = fs w /\
    matched_resumes r ≡ₚ hits /\
    descending rm_score (matched_resumes r) /\
    (forall s, filter (fun m => rm_score m = s) (matched_resumes r) =
               filter (fun m => rm_score m = s) hits) /\
    total_resumes r = Z.of_nat (length (documents (fs w))).
Proof.
  intros HK Hdir hits. subst hits. unfold filter_resumes.
  destruct K as [|k K]; [done|]. set (K' := k :: K) in *.
  unfold bind at 1. rewrite (get_uploaded_resumes_run w Hdir).
  fold (documents (fs w)).
  destruct (documents (fs w)) as [|name names] eqn:Edocs.
  - do 2 eexists. split; [reflexivity|]. cbn.
    repeat split; constructor.
  - set (docs := name :: names) in *. set (w1 := World _ _).
    destruct (filter_loop_run K' docs [] w1) as (evs & Hloop).
    unfold bind. rewrite Hloop. subst w1. cbn [fs io app].
    set (hits := filter _ _).
    do 2 eexists. split; [reflexivity|]. cbn [fs matched_resumes total_resumes].
    split; [done|]. split; [apply sort_reverse_perm|].
    split; [apply sort_reverse_descending|].
    split; [intros s; apply sort_reverse_stable | done].
Qed.

End FilterProperties.

Lemma filter_resumes_sorted_stable_witness :
  exists r w',
    filter_resumes sample_PdfReader sample_Document ["python"; "java"] sample_store
      = (Ok r, w') /\
    map rm_filename (matched_resumes r) = ["zed.pdf"; "alice.pdf"; "bob.docx"] /\
    descending rm_score (matched_resumes r) /\
    filter (fun m => rm_score m = 1) (matched_resumes r) =
      [ {| rm_filename := "alice.pdf"; rm_matched_keywords := ["python"]; rm_score := 1 |};
        {| rm_filename := "bob.docx"; rm_matched_keywords := ["python"]; rm_score := 1 |} ].
Proof.
  destruct (filter_resumes_sorted_stable sample_PdfReader sample_Document
              sample_store ["python"; "java"])
    as (r & w' & Hrun & _ & _ & Hdesc & Hstable & _).
  - discriminate.
  - reflexivity.
  - exists r, w'. split; [exact Hrun|]. split; [|split; [exact Hdesc|]].
    + vm_compute in Hrun. injection Hrun as <- _. reflexivity.
    + rewrite Hstable. vm_compute. reflexivity.
Defined.
